(** * Composite pattern: the file-system sample

    A shallow embedding of [compositePattern_fileSystem.ts].  The sample
    builds a tree of [File] and [Folder] objects, mutates it through
    [Folder.add] and [Folder.remove], and prints it with the polymorphic
    [display] method.

    Objects live in a store indexed by references, because the source
    compares components by identity ([Array.prototype.indexOf] uses strict
    equality) and because a component may be reachable from several places.
    Methods are computations in a small state-and-error monad over the store
    and the console. *)

From Stdlib Require Import ZArith Lia.
From stdpp Require Import base option relations list sorting gmap strings.

#[local] Set Warnings "-register-all,-clear-no-such-hyp".

Local Open Scope Z_scope.
Local Open Scope nat_scope.

(** ** Store and console *)

(** A reference is the identity of an object. *)
Abbreviation ref := nat (only parsing).

(** The two implementers of [IFileSystemComponent].  The private
    [children] array of a folder is never handed out by the class, so no
    second reference to the array exists and it is kept inside the folder
    object. *)
Inductive object : Type :=
  | FileObj (name : string)
  | FolderObj (name : string) (children : list ref).

(** The store of allocated objects, and the messages passed to
    [console.log] so far, oldest first. *)
Record state : Type := State {
  heap : gmap nat object;
  console : list string
}.

Definition initial : state := State ∅ [].

(** ** The monad of method bodies *)

Inductive error : Type :=
  | TypeError   (* a receiver that is not an object of the expected class *)
  | OutOfFuel.  (* the recursion budget of the model is spent *)

Inductive result (A : Type) : Type :=
  | Ok (a : A) (s : state)
  | Err (e : error).
Arguments Ok {A} a s.
Arguments Err {A} e.

Definition M (A : Type) : Type := state → result A.

Definition ret {A} (a : A) : M A := λ s, Ok a s.

Definition bind {A B} (k : A → M B) (c : M A) : M B :=
  λ s, match c s with
       | Ok a s' => k a s'
       | Err e => Err e
       end.

Definition throw {A} (e : error) : M A := λ _, Err e.

#[export] Instance M_ret : MRet M := @ret.
#[export] Instance M_bind : MBind M := @bind.

(** [new C(...)]: the object gets an identity no live object has. *)
Definition alloc (o : object) : M ref :=
  λ s, let r := fresh (dom (heap s)) in
       Ok r (State (<[r := o]> (heap s)) (console s)).

Definition deref (r : ref) : M object :=
  λ s, match heap s !! r with
       | Some o => Ok o s
       | None => Err TypeError
       end.

Definition store (r : ref) (o : object) : M unit :=
  λ s, Ok tt (State (<[r := o]> (heap s)) (console s)).

(** [console.log(msg)] *)
Definition console_log (msg : string) : M unit :=
  λ s, Ok tt (State (heap s) (console s ++ [msg])).

(** ** Array primitives used by [Folder] *)

(** [Array.prototype.push] with one argument. *)
Definition push (l : list ref) (x : ref) : list ref := l ++ [x].

(** [Array.prototype.indexOf]: index of the first element identical to
    [x], or [-1]. *)
Fixpoint indexOf (l : list ref) (x : ref) : Z :=
  match l with
  | [] => (-1)%Z
  | y :: l' =>
      if decide (y = x) then 0%Z
      else let i := indexOf l' x in
           if (i =? -1)%Z then (-1)%Z else (i + 1)%Z
  end.

(** [Array.prototype.splice(start, deleteCount)] with no inserted items:
    a negative [start] counts from the end, both arguments are clamped to
    the array. *)
Definition splice (l : list ref) (start deleteCount : Z) : list ref :=
  let len := Z.of_nat (length l) in
  let actualStart :=
    if (start <? 0)%Z then Z.max (len + start) 0 else Z.min start len in
  let actualDeleteCount :=
    Z.min (Z.max deleteCount 0) (len - actualStart) in
  take (Z.to_nat actualStart) l
    ++ drop (Z.to_nat (actualStart + actualDeleteCount)) l.

(** [Array.prototype.forEach]: the callback runs on the elements in index
    order.  The callbacks of this program never write to the array they
    iterate over, so the elements are those read when the loop starts. *)
Fixpoint forEach {A} (l : list A) (callback : A → M unit) : M unit :=
  match l with
  | [] => ret tt
  | x :: l' => callback x ;; forEach l' callback
  end.

(** ** The classes *)

Definition new_File (name : string) : M ref := alloc (FileObj name).

Definition new_Folder (name : string) : M ref := alloc (FolderObj name []).

Definition getName (this : ref) : M string :=
  o ← deref this;
  match o with
  | FileObj name => ret name
  | FolderObj name _ => ret name
  end.

(** [Folder.add] *)
Definition add (this component : ref) : M unit :=
  o ← deref this;
  match o with
  | FolderObj name children => store this (FolderObj name (push children component))
  | FileObj _ => throw TypeError
  end.

(** [Folder.remove] *)
Definition remove (this component : ref) : M unit :=
  o ← deref this;
  match o with
  | FolderObj name children =>
      let index := indexOf children component in
      if (index =? -1)%Z then ret tt
      else store this (FolderObj name (splice children index 1))
  | FileObj _ => throw TypeError
  end.

(** [display(indentation: string = "")], dispatched on the class of the
    receiver.  An absent argument is [None].  [fuel] bounds the depth of
    the recursion, which the source leaves to the call stack. *)
Fixpoint display (fuel : nat) (this : ref) (indentation : option string) : M unit :=
  match fuel with
  | O => throw OutOfFuel
  | S fuel' =>
      let indentation := default "" indentation in
      o ← deref this;
      match o with
      | FileObj name =>
          console_log (indentation +:+ "- File: " +:+ name)
      | FolderObj name children =>
          console_log (indentation +:+ "+ Folder: " +:+ name);;
          forEach children
            (λ child, display fuel' child (Some (indentation +:+ "  ")))
      end
  end.

(** ** Client code *)

Record handles : Type := Handles {
  file1 : ref; file2 : ref; file3 : ref; file4 : ref;
  folder1 : ref; folder2 : ref; rootFolder : ref
}.

(** Creation of the files and folders and the calls of [add]. *)
Definition client_build : M handles :=
  file1 ← new_File "file1.txt";
  file2 ← new_File "file2.txt";
  file3 ← new_File "file3.txt";
  file4 ← new_File "file4.txt";
  folder1 ← new_Folder "Documents";
  folder2 ← new_Folder "Images";
  rootFolder ← new_Folder "Root";
  add folder1 file1;;
  add folder1 file2;;
  add folder1 file4;;
  add folder2 file3;;
  add rootFolder folder1;;
  add rootFolder folder2;;
  ret (Handles file1 file2 file3 file4 folder1 folder2 rootFolder).

Definition client_before (fuel : nat) (h : handles) : M unit :=
  console_log "=== File System Before Removal ===";;
  display fuel (rootFolder h) None.

Definition client_after (fuel : nat) (h : handles) : M unit :=
  remove (folder1 h) (file4 h);;
  console_log "File System After Removal of file4.txt";;
  display fuel (rootFolder h) None.

Definition client (fuel : nat) : M unit :=
  h ← client_build;
  client_before fuel h;;
  client_after fuel h.

Definition output {A} (r : result A) : list string :=
  match r with
  | Ok _ s => console s
  | Err _ => []
  end.


(** ** Trees

    The spec speaks of trees of files and folders.  A [tree] is the shape
    reachable from a reference when the store holds no cycle below it;
    [models h r t] says that the object at [r] in store [h] unfolds to
    [t]. *)

Inductive tree : Type :=
  | TFile (name : string)
  | TFolder (name : string) (kids : list tree).

(** Induction on trees that reaches the trees inside the child lists. *)
Section tree_induction.
Variable P : tree → Prop.
Hypothesis Hfile : ∀ name, P (TFile name).
Hypothesis Hfolder : ∀ name kids, Forall P kids → P (TFolder name kids).

Fixpoint tree_rect_nested (t : tree) : P t :=
  match t with
  | TFile name => Hfile name
  | TFolder name kids =>
      Hfolder name kids
        ((fix go (l : list tree) : Forall P l :=
            match l with
            | [] => List.Forall_nil P
            | k :: l' => List.Forall_cons P k l' (tree_rect_nested k) (go l')
            end) kids)
  end.
End tree_induction.

Inductive models (h : gmap nat object) : ref → tree → Prop :=
  | models_file r name :
      h !! r = Some (FileObj name) →
      models h r (TFile name)
  | models_folder r name children kids :
      h !! r = Some (FolderObj name children) →
      Forall2 (models h) children kids →
      models h r (TFolder name kids).

(** Depth of the recursion of [display] on a tree. *)
Fixpoint height (t : tree) : nat :=
  match t with
  | TFile _ => 1
  | TFolder _ kids => S (max_list (map height kids))
  end.

(** Number of nodes. *)
Fixpoint size (t : tree) : nat :=
  match t with
  | TFile _ => 1
  | TFolder _ kids => S (sum_list (map size kids))
  end.

(** What [display] logs on a tree, read off its two method bodies. *)
Fixpoint lines (indentation : string) (t : tree) : list string :=
  match t with
  | TFile name => [indentation +:+ "- File: " +:+ name]
  | TFolder name kids =>
      (indentation +:+ "+ Folder: " +:+ name)
        :: concat (map (lines (indentation +:+ "  ")) kids)
  end.

(** *** Pre-order, as the spec words it

    A node of a tree is addressed by the child indexes on the way from the
    root.  [preorder] lists the nodes parent first, then the subtrees of
    the children in sequence order. *)

Fixpoint subtree (t : tree) (p : list nat) : option tree :=
  match p with
  | [] => Some t
  | i :: p' =>
      match t with
      | TFile _ => None
      | TFolder _ kids => k ← kids !! i; subtree k p'
      end
  end.

Fixpoint preorder_from (preorder : tree → list (list nat))
    (i : nat) (kids : list tree) : list (list nat) :=
  match kids with
  | [] => []
  | k :: kids' => map (cons i) (preorder k) ++ preorder_from preorder (S i) kids'
  end.

Fixpoint preorder (t : tree) : list (list nat) :=
  match t with
  | TFile _ => [[]]
  | TFolder _ kids => [] :: preorder_from preorder 0 kids
  end.

(** [p] comes before [q] in pre-order: an ancestor before its descendants,
    and the whole subtree of an earlier child before that of a later
    one. *)
Inductive path_lt : list nat → list nat → Prop :=
  | path_lt_ancestor i q : path_lt [] (i :: q)
  | path_lt_sibling i j p q : i < j → path_lt (i :: p) (j :: q)
  | path_lt_below i p q : path_lt p q → path_lt (i :: p) (i :: q).

(** The text of a node without its indentation. *)
Definition label (t : tree) : string :=
  match t with
  | TFile name => "- File: " +:+ name
  | TFolder name _ => "+ Folder: " +:+ name
  end.

(** Two spaces per level. *)
Fixpoint indent (depth : nat) : string :=
  match depth with
  | O => ""
  | S d => "  " +:+ indent d
  end.

(** The line of the node at [p], at the depth of [p] below a root printed
    with [indentation]. *)
Definition line_at (indentation : string) (t : tree) (p : list nat) : string :=
  match subtree t p with
  | Some n => indentation +:+ indent (length p) +:+ label n
  | None => ""
  end.

(** The state after [display] has logged [out]. *)
Definition logged (out : list string) (s : state) : state :=
  State (heap s) (console s ++ out).

(** ** The demo scenario *)

(** The references and the state the client code has built when it first
    calls [display]. *)
Definition demo_handles : handles :=
  match client_build initial with
  | Ok h _ => h
  | Err _ => Handles 0 0 0 0 0 0 0
  end.

Definition demo_state : state :=
  match client_build initial with
  | Ok _ s => s
  | Err _ => initial
  end.

Definition demo_tree : tree :=
  TFolder "Root"
    [ TFolder "Documents"
        [TFile "file1.txt"; TFile "file2.txt"; TFile "file4.txt"];
      TFolder "Images" [TFile "file3.txt"] ].

(** The expected output written in the source after the first [display]. *)
Definition expected_before : list string :=
  [ "+ Folder: Root";
    "  + Folder: Documents";
    "    - File: file1.txt";
    "    - File: file2.txt";
    "    - File: file4.txt";
    "  + Folder: Images";
    "    - File: file3.txt" ].

(** The expected output written in the source after the second [display]. *)
Definition expected_after : list string :=
  [ "+ Folder: Root";
    "  + Folder: Documents";
    "    - File: file1.txt";
    "    - File: file2.txt";
    "  + Folder: Images";
    "    - File: file3.txt" ].

(** The seven lines with the last one indented by six spaces. *)
Definition seven_lines_six_spaces : list string :=
  [ "+ Folder: Root";
    "  + Folder: Documents";
    "    - File: file1.txt";
    "    - File: file2.txt";
    "    - File: file4.txt";
    "  + Folder: Images";
    "      - File: file3.txt" ].

(** Two small stores: a folder that is its own child below a root, and a
    folder in which one file was added twice. *)
Definition loop_state : state :=
  State {[ 0 := FolderObj "Root" [1]; 1 := FolderObj "Loop" [1] ]} [].

Definition twice_state : state :=
  State {[ 0 := FolderObj "F" [1; 2; 1]; 1 := FileObj "a"; 2 := FileObj "b" ]} [].

(** The demo store after [Images.add(file4)]. *)
Definition demo_state_add : state :=
  State (<[folder2 demo_handles := FolderObj "Images" [2; 3]]> (heap demo_state))
        (console demo_state).

(** ** The store as a graph *)

(** The [name] field, which both classes declare. *)
Definition name_of (o : object) : string :=
  match o with
  | FileObj name => name
  | FolderObj name _ => name
  end.

(** [c] is an element of the [children] array of the folder [p]. *)
Definition child (h : gmap nat object) (p c : ref) : Prop :=
  ∃ name children, h !! p = Some (FolderObj name children) ∧ c ∈ children.

(** ** Proofs *)

Ltac munfold :=
  unfold mbind, M_bind, bind, mret, M_ret, ret, throw, deref, store,
    console_log, alloc in *.

Lemma logged_nil s : logged [] s = s.
Proof. destruct s. unfold logged. simpl. by rewrite app_nil_r. Qed.

Lemma logged_app out1 out2 s : logged out2 (logged out1 s) = logged (out1 ++ out2) s.
Proof. unfold logged. simpl. by rewrite app_assoc. Qed.

Lemma heap_logged out s : heap (logged out s) = heap s.
Proof. done. Qed.

(** The loop over the children logs the children's lines one after the
    other. *)
Lemma forEach_display_lines h fuel ind children kids :
  Forall2 (λ c k, ∀ s, heap s = h →
             display fuel c (Some ind) s = Ok tt (logged (lines ind k) s))
          children kids →
  ∀ s, heap s = h →
    forEach children (λ child, display fuel child (Some ind)) s
    = Ok tt (logged (concat (map (lines ind) kids)) s).
Proof.
  induction 1 as [|c k cs ks Hck _ IH]; intros s Hs; simpl.
  - by rewrite logged_nil.
  - munfold. rewrite (Hck s Hs).
    rewrite IH by done. by rewrite logged_app.
Qed.

Lemma display_lines t :
  ∀ h r, models h r t →
  ∀ fuel ind s, heap s = h → height t ≤ fuel →
    display fuel r (Some ind) s = Ok tt (logged (lines ind t) s).
Proof.
  induction t as [name|name kids IH] using tree_rect_nested;
    intros h r Hm fuel ind s Hs Hfuel;
    inversion Hm as [r' n' Hlook | r' n' children kids' Hlook Hkids]; subst;
    (destruct fuel as [|fuel]; [simpl in Hfuel; lia|]);
    simpl; munfold; rewrite Hlook; [done|].
  simpl in Hfuel. apply Nat.succ_le_mono in Hfuel.
  erewrite (forEach_display_lines _ _ _ children kids);
    [|apply Forall2_same_length_lookup_2|done].
  - unfold logged. simpl. by rewrite <- app_assoc.
  - by eapply Forall2_length.
  - intros i c k Hc Hk s' Hs'. simpl in Hs'.
    rewrite Forall_lookup in IH. apply (IH i k Hk (heap s)); [|done|].
    + by eapply Forall2_lookup_lr.
    + etrans; [|exact Hfuel]. apply max_list_elem_of_le.
      apply list_elem_of_fmap. exists k. split; [done|].
      by eapply list_elem_of_lookup_2.
Qed.

(** *** Pre-order listing of a tree *)

Lemma append_assoc (a b c : string) : (a +:+ b) +:+ c = a +:+ b +:+ c.
Proof.
  induction a as [|x a IH]; [done|].
  change (String x ((a +:+ b) +:+ c) = String x (a +:+ b +:+ c)).
  by rewrite IH.
Qed.

Lemma elem_of_preorder_from (pre : tree → list (list nat)) i kids p :
  p ∈ preorder_from pre i kids ↔
  ∃ j k q, p = (i + j) :: q ∧ kids !! j = Some k ∧ q ∈ pre k.
Proof.
  revert i. induction kids as [|k kids IH]; intros i; simpl.
  - split; [by intros ?%elem_of_nil|by intros (j & k & q & _ & ? & _)].
  - rewrite elem_of_app, list_elem_of_fmap, IH. split.
    + intros [(q & -> & Hq)|(j & k' & q & -> & Hj & Hq)].
      * exists 0, k, q. by rewrite Nat.add_0_r.
      * exists (S j), k', q. split; [f_equal; lia|done].
    + intros ([|j] & k' & q & -> & Hj & Hq); simpl in Hj.
      * left. exists q. rewrite Nat.add_0_r. by simplify_eq.
      * right. exists j, k', q. split; [f_equal; lia|done].
Qed.

Lemma preorder_complete t : ∀ p, p ∈ preorder t ↔ is_Some (subtree t p).
Proof.
  induction t as [name|name kids IH] using tree_rect_nested; intros p; simpl.
  - rewrite list_elem_of_singleton. destruct p; simpl; split; done.
  - rewrite elem_of_cons, elem_of_preorder_from.
    rewrite Forall_lookup in IH. split.
    + intros [->|(j & k & q & -> & Hj & Hq)]; simpl; [by eexists|].
      rewrite Hj. simpl. by apply (IH j k Hj).
    + destruct p as [|j q]; simpl; [by left|]. intros Hsome. right.
      destruct (kids !! j) as [k|] eqn:Hj; simpl in Hsome; [|by destruct Hsome].
      exists j, k, q. split; [done|]. split; [done|]. by apply (IH j k Hj).
Qed.

Lemma path_lt_irrefl p : ¬ path_lt p p.
Proof.
  induction p as [|i p IH]; intros H; inversion H; subst; [lia|done].
Qed.

Lemma StronglySorted_below i l :
  StronglySorted path_lt l → StronglySorted path_lt (map (cons i) l).
Proof.
  induction 1 as [|p l _ IH Hall]; simpl; constructor; [done|].
  apply Forall_fmap. eapply Forall_impl; [exact Hall|].
  intros q Hq. by apply path_lt_below.
Qed.

Lemma preorder_from_sorted (pre : tree → list (list nat)) i kids :
  Forall (λ k, StronglySorted path_lt (pre k)) kids →
  StronglySorted path_lt (preorder_from pre i kids).
Proof.
  revert i. induction kids as [|k kids IH]; intros i Hall; simpl.
  - constructor.
  - apply Forall_cons in Hall as [Hk Hall]. apply StronglySorted_app.
    split_and!; [|by apply StronglySorted_below|by apply IH].
    intros p1 p2 (q1 & -> & _)%list_elem_of_fmap
      (j & k' & q2 & -> & _ & _)%elem_of_preorder_from.
    apply path_lt_sibling. lia.
Qed.

Lemma preorder_sorted t : StronglySorted path_lt (preorder t).
Proof.
  induction t as [name|name kids IH] using tree_rect_nested; simpl.
  - repeat constructor.
  - constructor; [by apply preorder_from_sorted|].
    apply Forall_forall. intros p (j & k & q & -> & _)%elem_of_preorder_from.
    constructor.
Qed.

Lemma StronglySorted_NoDup_paths l : StronglySorted path_lt l → NoDup l.
Proof.
  induction 1 as [|p l _ IH Hall]; constructor; [|done].
  intros Hin. rewrite Forall_forall in Hall.
  by apply (path_lt_irrefl p), Hall.
Qed.

Lemma preorder_from_length i kids :
  length (preorder_from preorder i kids)
  = sum_list (map (λ k, length (preorder k)) kids).
Proof.
  revert i. induction kids as [|k kids IH]; intros i; simpl; [done|].
  rewrite length_app. rewrite length_map. rewrite IH. done.
Qed.

Lemma preorder_length t : length (preorder t) = size t.
Proof.
  induction t as [name|name kids IH] using tree_rect_nested; simpl; [done|].
  rewrite preorder_from_length. f_equal. f_equal.
  induction IH as [|k kids Hk _ IHkids]; simpl; [done|by rewrite Hk, IHkids].
Qed.

Lemma indent_length depth : String.length (indent depth) = 2 * depth.
Proof.
  induction depth as [|d IH]; [done|].
  change (S (S (String.length (indent d))) = 2 * S d). lia.
Qed.

(** The line of a node below child [i] of a folder is the line of that
    node within the child, printed two spaces deeper. *)
Lemma line_at_child ind name kids i k q :
  kids !! i = Some k →
  line_at ind (TFolder name kids) (i :: q) = line_at (ind +:+ "  ") k q.
Proof.
  intros Hi. unfold line_at. simpl. rewrite Hi. simpl.
  destruct (subtree k q); [|done]. by rewrite !append_assoc.
Qed.

Lemma lines_preorder t : ∀ ind, lines ind t = map (line_at ind t) (preorder t).
Proof.
  induction t as [name|name kids IH] using tree_rect_nested; intros ind; simpl.
  - done.
  - f_equal.
    assert (Hgen : ∀ i rest, drop i kids = rest →
      concat (map (lines (ind +:+ "  ")) rest)
      = map (line_at ind (TFolder name kids)) (preorder_from preorder i rest)).
    { intros i rest. revert i. induction rest as [|k rest IHrest];
        intros i Hdrop; simpl; [done|].
      assert (Hi : kids !! i = Some k).
      { rewrite <- (Nat.add_0_r i), <- lookup_drop, Hdrop. done. }
      rewrite map_app, map_map. f_equal.
      - rewrite Forall_lookup in IH. rewrite (IH i k Hi).
        apply map_ext. intros q. by rewrite (line_at_child _ _ _ _ k).
      - apply IHrest. by rewrite <- Nat.add_1_r, <- drop_drop, Hdrop. }
    by apply (Hgen 0 kids).
Qed.

(** *** Array primitives *)

Lemma indexOf_absent l x : x ∉ l → indexOf l x = (-1)%Z.
Proof.
  induction l as [|y l IH]; simpl; [done|].
  intros Hnotin. apply not_elem_of_cons in Hnotin as [Hne Hnotin].
  destruct (decide (y = x)) as [->|_]; [done|].
  by rewrite (IH Hnotin).
Qed.

Lemma indexOf_present l x :
  x ∈ l →
  ∃ before after,
    l = before ++ x :: after ∧ (x ∉ before)
    ∧ indexOf l x = Z.of_nat (length before).
Proof.
  induction l as [|y l IH]; simpl; [by intros ?%elem_of_nil|].
  intros Hin. destruct (decide (y = x)) as [->|Hne].
  - exists [], l. split_and!; [done|apply not_elem_of_nil|done].
  - apply elem_of_cons in Hin as [->|Hin]; [done|].
    destruct (IH Hin) as (before & after & -> & Hnotin & Hidx).
    exists (y :: before), after. split_and!.
    + done.
    + apply not_elem_of_cons. split; [congruence|done].
    + rewrite Hidx. destruct (Z.eqb_spec (Z.of_nat (length before)) (-1)); [lia|].
      simpl length. lia.
Qed.

Lemma indexOf_minus_one l x : indexOf l x = (-1)%Z ↔ x ∉ l.
Proof.
  split; [|apply indexOf_absent].
  intros Hidx Hin.
  destruct (indexOf_present l x Hin) as (before & _ & _ & _ & Hlen). lia.
Qed.

Lemma splice_one before x after :
  splice (before ++ x :: after) (Z.of_nat (length before)) 1 = before ++ after.
Proof.
  unfold splice. rewrite length_app. simpl length.
  destruct (Z.ltb_spec (Z.of_nat (length before)) 0) as [?|_]; [lia|].
  rewrite Z.min_l by lia. rewrite Z.max_l by lia. rewrite Z.min_l by lia.
  rewrite Nat2Z.id.
  replace (Z.to_nat (Z.of_nat (length before) + 1)) with (S (length before)) by lia.
  rewrite take_app_length. f_equal.
  induction before as [|y before IH]; simpl; done.
Qed.

(** *** [Folder.add] and [Folder.remove] *)

Lemma state_eta s : State (heap s) (console s) = s.
Proof. by destruct s. Qed.

Lemma add_folder s f x name children :
  heap s !! f = Some (FolderObj name children) →
  add f x s
  = Ok tt (State (<[f := FolderObj name (children ++ [x])]> (heap s)) (console s)).
Proof. intros Hf. unfold add. munfold. by rewrite Hf. Qed.

Lemma remove_absent s f x name children :
  heap s !! f = Some (FolderObj name children) →
  x ∉ children →
  remove f x s = Ok tt s.
Proof.
  intros Hf Hnotin. unfold remove. munfold. rewrite Hf. simpl.
  by rewrite (indexOf_absent _ _ Hnotin).
Qed.

Lemma remove_present s f x name before after :
  heap s !! f = Some (FolderObj name (before ++ x :: after)) →
  x ∉ before →
  remove f x s
  = Ok tt (State (<[f := FolderObj name (before ++ after)]> (heap s)) (console s)).
Proof.
  intros Hf Hnotin. unfold remove. munfold. rewrite Hf. simpl.
  destruct (indexOf_present (before ++ x :: after) x)
    as (before' & after' & Heq & Hnotin' & Hidx).
  { apply elem_of_app. right. apply list_elem_of_here. }
  assert (before' = before) as ->.
  { clear Hf Hidx. revert before' Heq Hnotin'.
    induction before as [|y before IH]; intros [|y' before'] Heq Hnotin';
      simpl in *; simplify_eq; try done.
    - exfalso. apply Hnotin'. apply list_elem_of_here.
    - exfalso. apply Hnotin. apply list_elem_of_here.
    - f_equal. apply IH; [by eapply not_elem_of_cons|done|by eapply not_elem_of_cons]. }
  rewrite Hidx.
  destruct (Z.eqb_spec (Z.of_nat (length before)) (-1)); [lia|].
  by rewrite splice_one.
Qed.

(** C2.  [Folder.remove(x)] deletes the first element of the child
    sequence that is the very object [x]; when [x] is not a child the call
    returns normally, leaves the whole state as it was, and a later
    [display] prints what it would have printed without the call. *)
Theorem remove_first_occurrence (s : state) (f x : ref) (name : string)
    (children : list ref) :
  heap s !! f = Some (FolderObj name children) →
  (x ∈ children →
     ∃ before after,
       children = before ++ x :: after ∧ (x ∉ before)
       ∧ remove f x s
         = Ok tt (State (<[f := FolderObj name (before ++ after)]> (heap s))
                        (console s)))
  ∧ (x ∉ children →
       remove f x s = Ok tt s
       ∧ ∀ fuel r ind,
           (remove f x;; display fuel r ind) s = display fuel r ind s).
Proof.
  intros Hf. split.
  - intros Hin.
    destruct (indexOf_present children x Hin) as (before & after & -> & Hnotin & _).
    exists before, after. split_and!; [done|done|].
    by apply remove_present.
  - intros Hnotin. pose proof (remove_absent s f x name children Hf Hnotin) as Hrm.
    split; [done|]. intros fuel r ind.
    unfold mbind, M_bind, bind. by rewrite Hrm.
Qed.

(** Identity, not name, decides: removing a file that only shares its name
    with a child leaves the children alone. *)
Example remove_same_name :
  let s := State {[ 0 := FolderObj "F" [1]; 1 := FileObj "a"; 2 := FileObj "a" ]} [] in
  remove 0 2 s = Ok tt s.
Proof. reflexivity. Qed.

(** C3.  On a folder whose children do not contain [x], [add(x)] followed
    at once by [remove(x)] gives back the state before the two calls, so
    the child sequence is the original one. *)
Theorem add_remove_roundtrip (s : state) (f x : ref) (name : string)
    (children : list ref) :
  heap s !! f = Some (FolderObj name children) →
  x ∉ children →
  (add f x;; remove f x) s = Ok tt s
  ∧ ∃ s', add f x s = Ok tt s'
          ∧ heap s' !! f = Some (FolderObj name (children ++ [x]))
          ∧ remove f x s' = Ok tt s.
Proof.
  intros Hf Hnotin.
  pose proof (add_folder s f x name children Hf) as Hadd.
  set (s' := State (<[f := FolderObj name (children ++ [x])]> (heap s)) (console s)) in *.
  assert (Hf' : heap s' !! f = Some (FolderObj name (children ++ [x])))
    by apply lookup_insert_eq.
  assert (Hrm : remove f x s' = Ok tt s).
  { rewrite (remove_present s' f x name children [] Hf' Hnotin).
    subst s'. simpl. rewrite insert_insert_eq, app_nil_r.
    rewrite (insert_id _ _ _ Hf). by rewrite state_eta. }
  split.
  - unfold mbind, M_bind, bind. by rewrite Hadd.
  - by exists s'.
Qed.

(** *** [display] *)

(** An absent argument takes the default value of the parameter. *)
Lemma display_absent fuel r : display fuel r None = display fuel r (Some "").
Proof. by destruct fuel. Qed.

Lemma display_file s f name ind fuel :
  heap s !! f = Some (FileObj name) →
  display (S fuel) f (Some ind) s
  = Ok tt (logged [ind +:+ "- File: " +:+ name] s).
Proof. intros Hf. simpl. munfold. by rewrite Hf. Qed.

Lemma display_folder s f name children ind fuel :
  heap s !! f = Some (FolderObj name children) →
  display (S fuel) f (Some ind) s
  = (console_log (ind +:+ "+ Folder: " +:+ name);;
     forEach children (λ child, display fuel child (Some (ind +:+ "  ")))) s.
Proof. intros Hf. simpl. munfold. by rewrite Hf. Qed.

(** [display] only appends to the console, whatever the store holds. *)
Lemma forEach_frame {A} (callback : A → M unit) l :
  (∀ x s s', callback x s = Ok tt s' →
     heap s' = heap s ∧ ∃ out, console s' = console s ++ out) →
  ∀ s s', forEach l callback s = Ok tt s' →
    heap s' = heap s ∧ ∃ out, console s' = console s ++ out.
Proof.
  intros Hcb. induction l as [|x l IH]; intros s s' Hrun; simpl in Hrun.
  - munfold. simplify_eq. split; [done|]. exists []. by rewrite app_nil_r.
  - munfold. destruct (callback x s) as [[] s1|] eqn:Hx; [|done].
    destruct (Hcb _ _ _ Hx) as (Hh1 & out1 & Hc1).
    destruct (IH _ _ Hrun) as (Hh2 & out2 & Hc2).
    split; [congruence|]. exists (out1 ++ out2).
    by rewrite Hc2, Hc1, app_assoc.
Qed.

Lemma display_frame fuel :
  ∀ r ind s s', display fuel r ind s = Ok tt s' →
    heap s' = heap s ∧ ∃ out, console s' = console s ++ out.
Proof.
  induction fuel as [|fuel IH]; intros r ind s s' Hrun; simpl in Hrun;
    munfold; [done|].
  destruct (heap s !! r) as [[name|name children]|] eqn:Hr; [| |done].
  - simplify_eq. simpl. eauto.
  - apply (forEach_frame _ children) in Hrun as (Hh & out & Hc).
    + simpl in *. split; [done|]. eexists. rewrite Hc, <- app_assoc. done.
    + intros x. apply IH.
Qed.

(** C6.  [File.display(i)] on a file named [n] logs the one line
    [i- File: n] and changes nothing else. *)
Theorem File_display (s : state) (f : ref) (name ind : string) (fuel : nat) :
  heap s !! f = Some (FileObj name) →
  display (S fuel) f (Some ind) s
  = Ok tt (State (heap s) (console s ++ [ind +:+ "- File: " +:+ name])).
Proof. apply display_file. Qed.

(** C8.  [new Folder(name)] allocates a folder with no children, and
    [display] on a folder with no children logs the header line alone; a
    recursion budget of one call is enough, so no recursive call is
    made. *)
Theorem empty_Folder_display (s : state) (f : ref) (name ind : string) :
  heap s !! f = Some (FolderObj name []) →
  (∀ fuel, display (S fuel) f (Some ind) s
           = Ok tt (State (heap s) (console s ++ [ind +:+ "+ Folder: " +:+ name])))
  ∧ (∀ s0 name0, ∃ f0,
       new_Folder name0 s0
       = Ok f0 (State (<[f0 := FolderObj name0 []]> (heap s0)) (console s0))
       ∧ heap s0 !! f0 = None).
Proof.
  intros Hf. split.
  - intros fuel. by rewrite (display_folder s f name []).
  - intros s0 name0. exists (fresh (dom (heap s0))). split; [done|].
    apply not_elem_of_dom, is_fresh.
Qed.

(** C10.  [display()] is [display("")] for files and folders alike, and
    on a tree it prints the root without indentation. *)
Theorem display_default_indentation (s : state) (r : ref) (fuel : nat) :
  display fuel r None s = display fuel r (Some "") s
  ∧ (∀ name, heap s !! r = Some (FileObj name) →
       display (S fuel) r None s = Ok tt (logged ["- File: " +:+ name] s))
  ∧ (∀ name children, heap s !! r = Some (FolderObj name children) →
       display (S fuel) r None s
       = (console_log ("+ Folder: " +:+ name);;
          forEach children (λ child, display fuel child (Some "  "))) s).
Proof.
  split_and!.
  - by rewrite display_absent.
  - intros name Hr. by rewrite display_absent, (display_file s r name).
  - intros name children Hr.
    by rewrite display_absent, (display_folder s r name children).
Qed.

(** C9.  On a tree, [display] returns a state with the same store and a
    longer console, and a second call with the same arguments right after
    the first logs the same lines again. *)
Theorem display_output_only (s : state) (r : ref) (t : tree)
    (ind : option string) (fuel : nat) :
  models (heap s) r t →
  height t ≤ fuel →
  ∃ out,
    display fuel r ind s = Ok tt (State (heap s) (console s ++ out))
    ∧ display fuel r ind (State (heap s) (console s ++ out))
      = Ok tt (State (heap s) ((console s ++ out) ++ out))
    ∧ ∀ fuel' r' ind' s1 s2,
        display fuel' r' ind' s1 = Ok tt s2 → heap s2 = heap s1.
Proof.
  intros Hm Hfuel. exists (lines (default "" ind) t).
  assert (Hrun : ∀ s0, heap s0 = heap s →
    display fuel r ind s0 = Ok tt (logged (lines (default "" ind) t) s0)).
  { intros s0 Hs0. destruct ind as [ind|]; [|rewrite display_absent];
      by apply (display_lines t (heap s)). }
  split_and!.
  - by apply Hrun.
  - by rewrite Hrun.
  - intros fuel' r' ind' s1 s2 Hd. by apply display_frame in Hd as [? _].
Qed.

Lemma forEach_add xs :
  ∀ s f name children,
    heap s !! f = Some (FolderObj name children) →
    forEach xs (add f) s
    = Ok tt (State (<[f := FolderObj name (children ++ xs)]> (heap s)) (console s)).
Proof.
  induction xs as [|x xs IH]; intros s f name children Hf; simpl.
  - munfold. rewrite app_nil_r, (insert_id _ _ _ Hf). by rewrite state_eta.
  - unfold mbind, M_bind, bind. rewrite (add_folder s f x name children Hf).
    rewrite (IH _ f name (children ++ [x])) by apply lookup_insert_eq.
    simpl. by rewrite insert_insert_eq, <- app_assoc.
Qed.

(** C7.  [add(x)] puts [x] after the children already there; after a
    series of [add] calls [display] prints the header and then the
    subtrees of the children in the order of the calls, files and folders
    alike. *)
Theorem add_appends_display_order (s : state) (f : ref) (name : string)
    (children xs : list ref) :
  heap s !! f = Some (FolderObj name children) →
  (∀ x, add f x s
        = Ok tt (State (<[f := FolderObj name (children ++ [x])]> (heap s))
                       (console s)))
  ∧ ∃ s',
      forEach xs (add f) s = Ok tt s'
      ∧ heap s' !! f = Some (FolderObj name (children ++ xs))
      ∧ ∀ kids ind fuel,
          Forall2 (models (heap s')) (children ++ xs) kids →
          max_list (map height kids) ≤ fuel →
          display (S fuel) f (Some ind) s'
          = Ok tt (logged ((ind +:+ "+ Folder: " +:+ name)
                             :: concat (map (lines (ind +:+ "  ")) kids)) s').
Proof.
  intros Hf. split; [intros x; by apply add_folder|].
  set (s' := State (<[f := FolderObj name (children ++ xs)]> (heap s)) (console s)).
  assert (Hf' : heap s' !! f = Some (FolderObj name (children ++ xs)))
    by apply lookup_insert_eq.
  exists s'. split_and!; [by apply forEach_add|done|].
  intros kids ind fuel Hkids Hfuel.
  apply (display_lines (TFolder name kids) (heap s') f); [|done|simpl; lia].
  by apply (models_folder _ f name (children ++ xs) kids).
Qed.

(** C1.  On a tree, [display] on a folder first logs the header line and
    then runs [display] with two more spaces on each child in sequence
    order; with a budget of at least the height of the tree the whole call
    logs one line per node, the lines come in pre-order, and the line of a
    node at depth [d] is indented by [d] times two spaces. *)
Theorem display_preorder (s : state) (r : ref) (t : tree) (ind : string) :
  models (heap s) r t →
  (∀ name children fuel,
     heap s !! r = Some (FolderObj name children) →
     display (S fuel) r (Some ind) s
     = (console_log (ind +:+ "+ Folder: " +:+ name);;
        forEach children (λ child, display fuel child (Some (ind +:+ "  ")))) s)
  ∧ (∀ fuel, height t ≤ fuel →
       display fuel r (Some ind) s
       = Ok tt (logged (map (line_at ind t) (preorder t)) s))
  ∧ StronglySorted path_lt (preorder t)
  ∧ NoDup (preorder t)
  ∧ (∀ p, p ∈ preorder t ↔ is_Some (subtree t p))
  ∧ length (preorder t) = size t
  ∧ (∀ p n, subtree t p = Some n →
       line_at ind t p = ind +:+ indent (length p) +:+ label n
       ∧ String.length (indent (length p)) = 2 * length p).
Proof.
  intros Hm. split_and!.
  - intros name children fuel Hr. by apply display_folder.
  - intros fuel Hfuel. rewrite <- lines_preorder.
    by apply (display_lines t (heap s)).
  - apply preorder_sorted.
  - apply StronglySorted_NoDup_paths, preorder_sorted.
  - apply preorder_complete.
  - apply preorder_length.
  - intros p n Hp. unfold line_at. rewrite Hp. split; [done|apply indent_length].
Qed.

(** *** The demo scenario *)

Ltac solve_models :=
  repeat match goal with
    | |- models _ _ (TFile _) => apply models_file; reflexivity
    | |- models _ _ (TFolder _ _) => eapply models_folder; [reflexivity|]
    | |- Forall2 _ _ _ => constructor
    end.

Lemma client_build_demo : client_build initial = Ok demo_handles demo_state.
Proof. reflexivity. Qed.

Lemma demo_models : models (heap demo_state) (rootFolder demo_handles) demo_tree.
Proof. unfold demo_tree. solve_models. Qed.

(** C4, as the code has it.  After the client code has built the demo
    tree, [display()] on the root logs the seven lines of the expected
    output of the source; the last one, [file3.txt] at depth two, is
    indented by four spaces. *)
Theorem demo_display_before (fuel : nat) :
  client_build initial = Ok demo_handles demo_state
  ∧ models (heap demo_state) (rootFolder demo_handles) demo_tree
  ∧ display (3 + fuel) (rootFolder demo_handles) None demo_state
    = Ok tt (State (heap demo_state) (console demo_state ++ expected_before))
  ∧ expected_before !! 6 = Some "    - File: file3.txt".
Proof.
  split_and!; [reflexivity|apply demo_models| |reflexivity].
  rewrite display_absent.
  rewrite (display_lines demo_tree (heap demo_state));
    [reflexivity|apply demo_models|done|simpl; lia].
Qed.

(** C4, as worded: the seven lines with [file3.txt] behind six spaces are
    not what the call logs. *)
Lemma demo_display_before_six_spaces :
  display 3 (rootFolder demo_handles) None demo_state
  ≠ Ok tt (State (heap demo_state) (console demo_state ++ seven_lines_six_spaces)).
Proof.
  intros H.
  assert (Hout : output (display 3 (rootFolder demo_handles) None demo_state)
                 = console demo_state ++ seven_lines_six_spaces)
    by (by rewrite H).
  vm_compute in Hout. discriminate Hout.
Qed.

(** C5.  The client code run to its end: the second [display()] logs the
    lines of the first one without the line of [file4.txt], which was the
    fifth; the other lines keep their text, order and indentation. *)
Theorem demo_display_after (fuel : nat) :
  ∃ s1 s2,
    client_before (3 + fuel) demo_handles demo_state = Ok tt s1
    ∧ console s1
      = console demo_state ++ "=== File System Before Removal ===" :: expected_before
    ∧ client_after (3 + fuel) demo_handles s1 = Ok tt s2
    ∧ console s2
      = console s1 ++ "File System After Removal of file4.txt" :: expected_after
    ∧ client (3 + fuel) initial = Ok tt s2
    ∧ expected_before !! 4 = Some "    - File: file4.txt"
    ∧ expected_after = take 4 expected_before ++ drop 5 expected_before.
Proof.
  set (s1 := logged ("=== File System Before Removal ===" :: expected_before)
               demo_state).
  set (s2 := State (<[folder1 demo_handles := FolderObj "Documents"
                        [file1 demo_handles; file2 demo_handles]]> (heap s1))
                   (console s1 ++ "File System After Removal of file4.txt"
                                    :: expected_after)).
  exists s1, s2. split_and!; reflexivity.
Qed.

(** *** The theorems at the demo tree *)

Lemma display_preorder_witness :
  models (heap demo_state) (rootFolder demo_handles) demo_tree
  ∧ display 3 (rootFolder demo_handles) (Some "") demo_state
    = Ok tt (logged (map (line_at "" demo_tree) (preorder demo_tree)) demo_state)
  ∧ length (preorder demo_tree) = 7.
Proof.
  assert (Hm : models (heap demo_state) (rootFolder demo_handles) demo_tree)
    by (unfold demo_tree; solve_models).
  destruct (display_preorder demo_state (rootFolder demo_handles) demo_tree "" Hm)
    as (_ & Hrun & _ & _ & _ & Hlen & _).
  split_and!; [exact Hm|apply Hrun; simpl; lia|exact Hlen].
Defined.

Lemma remove_first_occurrence_witness :
  heap demo_state !! folder1 demo_handles = Some (FolderObj "Documents" [0; 1; 3])
  ∧ remove (folder1 demo_handles) (file3 demo_handles) demo_state = Ok tt demo_state
  ∧ ∃ before after,
      [0; 1; 3] = before ++ file4 demo_handles :: after
      ∧ (file4 demo_handles ∉ before)
      ∧ remove (folder1 demo_handles) (file4 demo_handles) demo_state
        = Ok tt (State (<[folder1 demo_handles := FolderObj "Documents" (before ++ after)]>
                          (heap demo_state))
                       (console demo_state)).
Proof.
  assert (Hf : heap demo_state !! folder1 demo_handles
               = Some (FolderObj "Documents" [0; 1; 3])) by reflexivity.
  assert (Hnotin : file3 demo_handles ∉ [0; 1; 3]) by compute_done.
  assert (Hin : file4 demo_handles ∈ [0; 1; 3]) by compute_done.
  split_and!; [exact Hf| |].
  - exact (proj1 (proj2 (remove_first_occurrence demo_state
                           (folder1 demo_handles) (file3 demo_handles)
                           "Documents" [0; 1; 3] Hf) Hnotin)).
  - exact (proj1 (remove_first_occurrence demo_state
                    (folder1 demo_handles) (file4 demo_handles)
                    "Documents" [0; 1; 3] Hf) Hin).
Defined.

Lemma add_remove_roundtrip_witness :
  heap demo_state !! folder2 demo_handles = Some (FolderObj "Images" [2])
  ∧ (file4 demo_handles ∉ [2])
  ∧ (add (folder2 demo_handles) (file4 demo_handles);;
     remove (folder2 demo_handles) (file4 demo_handles)) demo_state
    = Ok tt demo_state.
Proof.
  assert (Hf : heap demo_state !! folder2 demo_handles
               = Some (FolderObj "Images" [2])) by reflexivity.
  assert (Hx : file4 demo_handles ∉ [2]) by compute_done.
  split_and!; [exact Hf|exact Hx|].
  apply (add_remove_roundtrip demo_state _ _ _ _ Hf Hx).
Defined.

Lemma File_display_witness :
  heap demo_state !! file3 demo_handles = Some (FileObj "file3.txt")
  ∧ display 1 (file3 demo_handles) (Some "    ") demo_state
    = Ok tt (State (heap demo_state) (console demo_state ++ ["    - File: file3.txt"])).
Proof.
  split; [reflexivity|].
  apply (File_display demo_state (file3 demo_handles) "file3.txt" "    " 0).
  reflexivity.
Defined.

Lemma add_appends_display_order_witness :
  heap demo_state !! folder2 demo_handles = Some (FolderObj "Images" [2])
  ∧ ∃ s',
      forEach [folder1 demo_handles; file4 demo_handles] (add (folder2 demo_handles))
        demo_state = Ok tt s'
      ∧ heap s' !! folder2 demo_handles = Some (FolderObj "Images" [2; 4; 3])
      ∧ display 3 (folder2 demo_handles) (Some "") s'
        = Ok tt (logged [ "+ Folder: Images";
                          "  - File: file3.txt";
                          "  + Folder: Documents";
                          "    - File: file1.txt";
                          "    - File: file2.txt";
                          "    - File: file4.txt";
                          "  - File: file4.txt" ] s').
Proof.
  assert (Hf : heap demo_state !! folder2 demo_handles
               = Some (FolderObj "Images" [2])) by reflexivity.
  split; [exact Hf|].
  destruct (add_appends_display_order demo_state (folder2 demo_handles) "Images"
              [2] [folder1 demo_handles; file4 demo_handles] Hf)
    as (_ & s' & Hadd & Hf' & Hdisplay).
  exists s'. split_and!; [exact Hadd|exact Hf'|].
  assert (Hs' : s' = State (<[folder2 demo_handles := FolderObj "Images" [2; 4; 3]]>
                              (heap demo_state)) (console demo_state)).
  { assert (Hrun : forEach [folder1 demo_handles; file4 demo_handles]
                     (add (folder2 demo_handles)) demo_state
                   = Ok tt (State (<[folder2 demo_handles := FolderObj "Images" [2; 4; 3]]>
                                     (heap demo_state)) (console demo_state)))
      by reflexivity.
    rewrite Hrun in Hadd. by injection Hadd. }
  apply (Hdisplay
           [ TFile "file3.txt";
             TFolder "Documents"
               [TFile "file1.txt"; TFile "file2.txt"; TFile "file4.txt"];
             TFile "file4.txt" ] "" 2).
  - rewrite Hs'. solve_models.
  - simpl. lia.
Defined.

Lemma empty_Folder_display_witness :
  heap (State {[ 0 := FolderObj "Empty" [] ]} []) !! 0 = Some (FolderObj "Empty" [])
  ∧ display 1 0 (Some "  ") (State {[ 0 := FolderObj "Empty" [] ]} [])
    = Ok tt (State {[ 0 := FolderObj "Empty" [] ]} ["  + Folder: Empty"]).
Proof.
  assert (Hf : heap (State {[ 0 := FolderObj "Empty" [] ]} []) !! 0
               = Some (FolderObj "Empty" [])) by reflexivity.
  split; [exact Hf|].
  apply (proj1 (empty_Folder_display (State {[ 0 := FolderObj "Empty" [] ]} []) 0
                  "Empty" "  " Hf) 0).
Defined.

Lemma display_output_only_witness :
  models (heap demo_state) (rootFolder demo_handles) demo_tree
  ∧ height demo_tree ≤ 3
  ∧ ∃ out,
      display 3 (rootFolder demo_handles) None demo_state
      = Ok tt (State (heap demo_state) (console demo_state ++ out))
      ∧ display 3 (rootFolder demo_handles) None
          (State (heap demo_state) (console demo_state ++ out))
        = Ok tt (State (heap demo_state) ((console demo_state ++ out) ++ out)).
Proof.
  assert (Hm : models (heap demo_state) (rootFolder demo_handles) demo_tree)
    by (unfold demo_tree; solve_models).
  assert (Hh : height demo_tree ≤ 3) by (simpl; lia).
  split_and!; [exact Hm|exact Hh|].
  destruct (display_output_only demo_state (rootFolder demo_handles) demo_tree
              None 3 Hm Hh) as (out & H1 & H2 & _).
  exists out. split; [exact H1|exact H2].
Defined.

Lemma display_default_indentation_witness :
  heap demo_state !! file1 demo_handles = Some (FileObj "file1.txt")
  ∧ display 1 (file1 demo_handles) None demo_state
    = Ok tt (logged ["- File: file1.txt"] demo_state).
Proof.
  split; [reflexivity|].
  apply (proj1 (proj2 (display_default_indentation demo_state
                         (file1 demo_handles) 0))).
  reflexivity.
Defined.

(** When [x] is already a child, [add(x)] then [remove(x)] deletes the
    earlier occurrence and so reorders the children. *)
Example add_remove_duplicate :
  let s := State {[ 0 := FolderObj "F" [1; 2]; 1 := FileObj "a"; 2 := FileObj "b" ]} [] in
  (add 0 1;; remove 0 1;; deref 0) s
  = Ok (FolderObj "F" [2; 1])
       (State {[ 0 := FolderObj "F" [2; 1]; 1 := FileObj "a"; 2 := FileObj "b" ]} []).
Proof. reflexivity. Qed.

(** A folder that contains itself is not a tree: [display] uses up any
    budget. *)
Example display_cycle :
  let s := State {[ 0 := FolderObj "F" [0] ]} [] in
  display 5 0 None s = Err OutOfFuel.
Proof. reflexivity. Qed.

(** ** Further properties of the classes *)

(** *** When [display] returns *)

Lemma forEach_display_inv h fuel ind children :
  (∀ r s s', display fuel r (Some ind) s = Ok tt s' →
     ∃ t, models (heap s) r t ∧ height t ≤ fuel ∧ s' = logged (lines ind t) s) →
  ∀ s s', heap s = h →
    forEach children (λ child, display fuel child (Some ind)) s = Ok tt s' →
    ∃ kids, Forall2 (models h) children kids
            ∧ max_list (map height kids) ≤ fuel
            ∧ s' = logged (concat (map (lines ind) kids)) s.
Proof.
  intros IH. induction children as [|c children IHc]; intros s s' Hs Hrun;
    simpl in Hrun.
  - munfold. simplify_eq. exists []. split_and!; [constructor|simpl; lia|].
    by rewrite logged_nil.
  - unfold mbind, M_bind, bind in Hrun.
    destruct (display fuel c (Some ind) s) as [[] s1|] eqn:Hc; [|done].
    destruct (IH _ _ _ Hc) as (t & Hm & Hh & ->).
    destruct (IHc (logged (lines ind t) s) s' Hs Hrun) as (kids & Hms & Hhs & ->).
    exists (t :: kids). split_and!.
    + constructor; [by rewrite <- Hs|done].
    + simpl. lia.
    + simpl. by rewrite logged_app.
Qed.

Lemma display_returns fuel :
  ∀ r ind s s',
    display fuel r (Some ind) s = Ok tt s' →
    ∃ t, models (heap s) r t ∧ height t ≤ fuel ∧ s' = logged (lines ind t) s.
Proof.
  induction fuel as [|fuel IH]; intros r ind s s' Hrun; simpl in Hrun;
    munfold; [done|].
  destruct (heap s !! r) as [[name|name children]|] eqn:Hr; [| |done].
  - simplify_eq. exists (TFile name). split_and!; [by constructor|simpl; lia|done].
  - apply (forEach_display_inv (heap s) fuel (ind +:+ "  ") children) in Hrun
      as (kids & Hms & Hhs & ->); [|intros; by apply IH|done].
    exists (TFolder name kids). split_and!.
    + by apply (models_folder _ r name children).
    + simpl. lia.
    + unfold logged. simpl. by rewrite <- app_assoc.
Qed.

Lemma display_returns_default fuel r ind s s' :
  display fuel r ind s = Ok tt s' →
  ∃ t, models (heap s) r t ∧ height t ≤ fuel
       ∧ s' = logged (lines (default "" ind) t) s.
Proof.
  intros Hrun. destruct ind as [ind|]; [|rewrite display_absent in Hrun];
    by apply display_returns.
Qed.

(** X1.  [display] returns normally exactly when the store below the
    receiver is a tree no deeper than the recursion budget, and what it
    then logs are the lines of that tree. *)
Theorem display_returns_iff_tree (fuel : nat) (r : ref) (ind : option string)
    (s s' : state) :
  display fuel r ind s = Ok tt s'
  ↔ ∃ t, models (heap s) r t ∧ height t ≤ fuel
         ∧ s' = logged (lines (default "" ind) t) s.
Proof.
  split; [apply display_returns_default|].
  intros (t & Hm & Hh & ->).
    destruct ind as [ind|]; [|rewrite display_absent];
      by apply (display_lines t (heap s)).
Qed.

(** *** Cycles *)

Lemma models_functional t :
  ∀ h r t', models h r t → models h r t' → t = t'.
Proof.
  induction t as [name|name kids IH] using tree_rect_nested;
    intros h r t' Hm Hm';
    inversion Hm as [? ? Hl|? ? children ? Hl Hkids]; subst;
    inversion Hm' as [? ? Hl'|? ? children' kids' Hl' Hkids']; subst;
    rewrite Hl in Hl'; simplify_eq; [done|].
  f_equal. clear Hl Hm Hm'. revert kids' Hkids'.
  induction Hkids as [|c k cs ks Hck Hcks IHks]; intros kids' Hkids';
    inversion Hkids'; subst; [done|].
  apply Forall_cons in IH as [IHk IH]. f_equal; [by eapply IHk|by apply IHks].
Qed.

Lemma size_kid k kids : k ∈ kids → size k ≤ sum_list (map size kids).
Proof.
  induction 1 as [k kids|k k' kids _ IH]; simpl; lia.
Qed.

Lemma models_child h p c t :
  models h p t → child h p c →
  ∃ t', models h c t' ∧ size t' < size t.
Proof.
  intros Hm (name & children & Hl & Hc).
  inversion Hm as [? ? Hl'|? ? children' kids Hl' Hkids]; subst;
    rewrite Hl in Hl'; simplify_eq.
  apply list_elem_of_lookup in Hc as [i Hi].
  destruct (Forall2_lookup_l _ _ _ _ _ Hkids Hi) as (k & Hk & Hck).
  exists k. split; [done|]. simpl.
  apply list_elem_of_lookup_2, size_kid in Hk. lia.
Qed.

Lemma models_reach h p c t :
  rtc (child h) p c → models h p t →
  ∃ t', models h c t' ∧ size t' ≤ size t.
Proof.
  intros Hreach. revert t.
  induction Hreach as [p|p q c Hpq _ IH]; intros t Hm; [by exists t|].
  destruct (models_child _ _ _ _ Hm Hpq) as (tq & Hq & Hlt).
  destruct (IH tq Hq) as (t' & Hc & Hle). exists t'. split; [done|lia].
Qed.

Lemma models_acyclic h r t : models h r t → ¬ tc (child h) r r.
Proof.
  intros Hm Hcycle.
  assert (∃ q, child h r q ∧ rtc (child h) q r) as (q & Hrq & Hqr).
  { inversion Hcycle as [? ? Hstep|? q ? Hstep Hrest]; subst.
    - exists r. split; [done|constructor].
    - exists q. split; [done|by apply tc_rtc]. }
  destruct (models_child _ _ _ _ Hm Hrq) as (tq & Hq & Hlt).
  destruct (models_reach _ _ _ _ Hqr Hq) as (t' & Hr & Hle).
  rewrite (models_functional _ _ _ _ Hm Hr) in Hlt. lia.
Qed.

Lemma never_returns_on_cycle s r q :
  rtc (child (heap s)) r q →
  tc (child (heap s)) q q →
  ∀ fuel ind s', display fuel r ind s ≠ Ok tt s'.
Proof.
  intros Hrq Hcycle fuel ind s' Hrun.
  apply display_returns_default in Hrun as (t & Hm & _).
  destruct (models_reach _ _ _ _ Hrq Hm) as (tq & Hq & _).
  by apply (models_acyclic _ _ _ Hq).
Qed.

(** X2.  When a folder on a cycle of [children] links can be reached from
    the receiver, [display] does not return, whatever the recursion
    budget. *)
Theorem display_cycle_never_returns (s : state) (r q : ref) :
  rtc (child (heap s)) r q →
  tc (child (heap s)) q q →
  ∀ fuel ind s', display fuel r ind s ≠ Ok tt s'.
Proof. apply never_returns_on_cycle. Qed.

Lemma child_add h f name children x p c :
  h !! f = Some (FolderObj name children) →
  child h p c →
  child (<[f := FolderObj name (children ++ [x])]> h) p c.
Proof.
  intros Hf (n & cs & Hp & Hc). destruct (decide (p = f)) as [->|Hne].
  - rewrite Hf in Hp. injection Hp as <- <-. exists name, (children ++ [x]).
    split; [apply lookup_insert_eq|]. apply elem_of_app. by left.
  - exists n, cs. split; [by rewrite lookup_insert_ne|done].
Qed.

(** X3.  [add] does not look for cycles: when the folder can be reached
    from the component it is given, the folder itself included, the call
    succeeds and [display] on the folder no longer returns. *)
Theorem add_ancestor_never_displays (s : state) (f x : ref) (name : string)
    (children : list ref) :
  heap s !! f = Some (FolderObj name children) →
  rtc (child (heap s)) x f →
  ∃ s1, add f x s = Ok tt s1
        ∧ heap s1 !! f = Some (FolderObj name (children ++ [x]))
        ∧ ∀ fuel ind s', display fuel f ind s1 ≠ Ok tt s'.
Proof.
  intros Hf Hreach.
  set (s1 := State (<[f := FolderObj name (children ++ [x])]> (heap s)) (console s)).
  exists s1. split_and!; [by apply add_folder|apply lookup_insert_eq|].
  apply (never_returns_on_cycle s1 f f); [constructor|].
  apply (tc_rtc_r f x f).
  - apply tc_once. exists name, (children ++ [x]).
    split; [apply lookup_insert_eq|]. apply elem_of_app. right.
    apply list_elem_of_here.
  - eapply rtc_subrel; [|exact Hreach].
    intros p c Hpc. by apply child_add.
Qed.

(** *** Updating one folder of a tree *)

(** A tree that does not reach [f] is the same tree after [f] is
    overwritten. *)
Lemma models_insert_unreachable h f o t :
  ∀ r, models h r t → ¬ rtc (child h) r f → models (<[f := o]> h) r t.
Proof.
  induction t as [name|name kids IH] using tree_rect_nested;
    intros r Hm Hnot;
    (assert (r ≠ f) by (intros ->; apply Hnot; constructor));
    inversion Hm as [? ? Hl|? ? children ? Hl Hkids]; subst.
  - apply models_file. by rewrite lookup_insert_ne.
  - apply (models_folder _ r name children); [by rewrite lookup_insert_ne|].
    apply Forall2_same_length_lookup_2; [by eapply Forall2_length|].
    intros i c k Hc Hk. rewrite Forall_lookup in IH. apply (IH i k Hk).
    + by eapply Forall2_lookup_lr.
    + intros Hcf. apply Hnot. apply (rtc_l _ r c f); [|done].
      exists name, children. split; [done|by eapply list_elem_of_lookup_2].
Qed.

(** In a tree no child of a folder reaches the folder. *)
Lemma kid_unreachable h f t c :
  models h f t → child h f c → ¬ rtc (child h) c f.
Proof.
  intros Hm Hfc Hcf. apply (models_acyclic _ _ _ Hm).
  by apply (tc_rtc_r f c f); [apply tc_once|].
Qed.

Lemma kids_insert h f o name children cs ks :
  h !! f = Some (FolderObj name children) →
  (∃ kids, Forall2 (models h) children kids) →
  cs ⊆ children →
  Forall2 (models h) cs ks →
  Forall2 (models (<[f := o]> h)) cs ks.
Proof.
  intros Hf (kids & Hkids) Hsub Hcs.
  assert (Hm : models h f (TFolder name kids))
    by by apply (models_folder _ f name children).
  apply Forall2_same_length_lookup_2; [by eapply Forall2_length|].
  intros i c k Hc Hk. apply models_insert_unreachable.
  - by eapply Forall2_lookup_lr.
  - apply (kid_unreachable _ _ _ _ Hm). exists name, children.
    split; [done|]. apply Hsub. by eapply list_elem_of_lookup_2.
Qed.

Lemma max_list_app (l1 l2 : list nat) :
  max_list (l1 ++ l2) = max_list l1 `max` max_list l2.
Proof. induction l1 as [|n l1 IH]; simpl; [done|]. rewrite IH. lia. Qed.


(** X5.  [remove] of a child of a tree keeps the folder a tree, and
    [display] on the folder then logs what it logged before without the
    block of lines of the removed child's subtree. *)
Theorem remove_display_cuts_block (s : state) (f x : ref) (name : string)
    (before after : list ref) (kb ka : list tree) (kx : tree) :
  heap s !! f = Some (FolderObj name (before ++ x :: after)) →
  x ∉ before →
  Forall2 (models (heap s)) before kb →
  models (heap s) x kx →
  Forall2 (models (heap s)) after ka →
  ∃ s1, remove f x s = Ok tt s1
        ∧ models (heap s1) f (TFolder name (kb ++ ka))
        ∧ ∀ ind fuel,
            height (TFolder name (kb ++ kx :: ka)) ≤ fuel →
            let pre := (ind +:+ "+ Folder: " +:+ name)
                         :: concat (map (lines (ind +:+ "  ")) kb) in
            let post := concat (map (lines (ind +:+ "  ")) ka) in
            display fuel f (Some ind) s
            = Ok tt (logged (pre ++ lines (ind +:+ "  ") kx ++ post) s)
            ∧ display fuel f (Some ind) s1 = Ok tt (logged (pre ++ post) s1).
Proof.
  intros Hf Hnotin Hb Hx Ha.
  set (o := FolderObj name (before ++ after)).
  set (s1 := State (<[f := o]> (heap s)) (console s)).
  assert (Hall : Forall2 (models (heap s)) (before ++ x :: after) (kb ++ kx :: ka))
    by (apply Forall2_app; [done|by constructor]).
  assert (Hm : models (heap s) f (TFolder name (kb ++ kx :: ka)))
    by by apply (models_folder _ f name (before ++ x :: after)).
  assert (Hm1 : models (heap s1) f (TFolder name (kb ++ ka))).
  { apply (models_folder _ f name (before ++ after)); [apply lookup_insert_eq|].
    apply Forall2_app;
      (eapply (kids_insert _ f o name); [exact Hf|by eexists| |done]);
      set_solver. }
  exists s1. split_and!; [by apply remove_present|done|].
  intros ind fuel Hfuel pre post. split.
  - rewrite (display_lines _ (heap s) f Hm fuel ind s) by done.
    simpl. by rewrite map_app, concat_app.
  - rewrite (display_lines _ (heap s1) f Hm1 fuel ind s1); [|done|].
    + simpl. by rewrite map_app, concat_app.
    + etrans; [|exact Hfuel]. simpl. apply le_n_S.
      rewrite !map_app, !max_list_app. simpl. lia.
Qed.

(** *** The indentation argument *)

Lemma append_nil_r (a : string) : a +:+ "" = a.
Proof.
  induction a as [|x a IH]; [done|].
  change (String x (a +:+ "") = String x a). by rewrite IH.
Qed.

Lemma lines_append t :
  ∀ a b, lines (a +:+ b) t = map (String.append a) (lines b t).
Proof.
  induction t as [name|name kids IH] using tree_rect_nested; intros a b; simpl.
  - by rewrite append_assoc.
  - rewrite append_assoc. f_equal.
    induction IH as [|k kids Hk _ IHkids]; simpl; [done|].
    by rewrite map_app, <- IHkids, <- Hk, append_assoc.
Qed.

(** X6.  The indentation argument is put in front of every line and has
    no other effect: [display(i)] logs the lines of [display()] with [i]
    before each. *)
Theorem display_indentation_prefix (s : state) (r : ref) (t : tree)
    (ind : string) (fuel : nat) :
  models (heap s) r t →
  height t ≤ fuel →
  ∃ out,
    display fuel r None s = Ok tt (logged out s)
    ∧ display fuel r (Some ind) s = Ok tt (logged (map (String.append ind) out) s).
Proof.
  intros Hm Hfuel. exists (lines "" t). split.
  - rewrite display_absent. by apply (display_lines t (heap s)).
  - rewrite <- lines_append, append_nil_r. by apply (display_lines t (heap s)).
Qed.

(** *** What [add] and [remove] change *)

(** X7.  [remove] of a child takes away one occurrence and no more: the
    children afterwards are the children before with one [x] less, in the
    same relative order, so a component added twice is still a child after
    one [remove]. *)
Theorem remove_deletes_one (s : state) (f x : ref) (name : string)
    (children : list ref) :
  heap s !! f = Some (FolderObj name children) →
  x ∈ children →
  ∃ children',
    remove f x s
    = Ok tt (State (<[f := FolderObj name children']> (heap s)) (console s))
    ∧ children ≡ₚ x :: children'
    ∧ children' `sublist_of` children
    ∧ length children = S (length children').
Proof.
  intros Hf Hin.
  destruct (indexOf_present children x Hin) as (before & after & -> & Hnotin & _).
  exists (before ++ after). split_and!.
  - by apply remove_present.
  - by rewrite Permutation_middle.
  - apply sublist_app; [done|]. by apply sublist_cons.
  - rewrite !length_app. simpl. lia.
Qed.

(** Both mutators overwrite the receiver with a folder of the same name
    and touch nothing else. *)
Lemma mutator_shape s s' f x :
  add f x s = Ok tt s' ∨ remove f x s = Ok tt s' →
  ∃ name children children',
    heap s !! f = Some (FolderObj name children)
    ∧ heap s' = <[f := FolderObj name children']> (heap s)
    ∧ console s' = console s.
Proof.
  intros [Hop|Hop]; [unfold add in Hop|unfold remove in Hop]; munfold;
    destruct (heap s !! f) as [[name|name children]|] eqn:Hf; try done.
  - simplify_eq. by exists name, children, (push children x).
  - destruct (indexOf children x =? -1)%Z; simplify_eq.
    + exists name, children, children. by rewrite insert_id.
    + by exists name, children, (splice children (indexOf children x) 1).
Qed.

(** X8.  [add] and [remove] write the child array of the receiver only:
    the console, the set of allocated objects, every other object and the
    name of the receiver are as before. *)
Theorem add_remove_frame (s s' : state) (f x : ref) :
  add f x s = Ok tt s' ∨ remove f x s = Ok tt s' →
  console s' = console s
  ∧ dom (heap s') = dom (heap s)
  ∧ (∀ r, r ≠ f → heap s' !! r = heap s !! r)
  ∧ name_of <$> heap s' !! f = name_of <$> heap s !! f.
Proof.
  intros (name & children & children' & Hf & Hh & Hc)%mutator_shape.
  rewrite Hh. split_and!.
  - done.
  - rewrite dom_insert_L. apply (elem_of_dom_2 (heap s)) in Hf. set_solver.
  - intros r Hne. by rewrite lookup_insert_ne.
  - by rewrite lookup_insert_eq, Hf.
Qed.

(** X9.  [add(x)] and [remove(y)] can be swapped when they are called on
    two folders or with two components. *)
Theorem add_remove_commute (s : state) (f g x y : ref) (nf ng : string)
    (cf cg : list ref) :
  heap s !! f = Some (FolderObj nf cf) →
  heap s !! g = Some (FolderObj ng cg) →
  f ≠ g ∨ x ≠ y →
  (add f x;; remove g y) s = (remove g y;; add f x) s.
Proof.
  intros Hf Hg Hne. unfold mbind, M_bind, bind.
  rewrite (add_folder s f x nf cf Hf).
  set (s1 := State (<[f := FolderObj nf (cf ++ [x])]> (heap s)) (console s)).
  destruct (decide (f = g)) as [<-|Hfg].
  - destruct Hne as [?|Hxy]; [done|]. rewrite Hf in Hg. injection Hg as <- <-.
    assert (Hf1 : heap s1 !! f = Some (FolderObj nf (cf ++ [x])))
      by apply lookup_insert_eq.
    destruct (decide (y ∈ cf)) as [Hin|Hnotin].
    + destruct (indexOf_present cf y Hin) as (b & a & -> & Hb & _).
      rewrite <- app_assoc in Hf1. simpl in Hf1.
      rewrite (remove_present s1 f y nf b (a ++ [x]) Hf1 Hb).
      rewrite (remove_present s f y nf b a Hf Hb).
      erewrite add_folder by apply lookup_insert_eq. simpl.
      by rewrite !insert_insert_eq, <- app_assoc.
    + rewrite (remove_absent s1 f y nf (cf ++ [x]) Hf1).
      * rewrite (remove_absent s f y nf cf Hf Hnotin).
        by rewrite (add_folder s f x nf cf Hf).
      * rewrite elem_of_app, list_elem_of_singleton. naive_solver.
  - assert (Hg1 : heap s1 !! g = Some (FolderObj ng cg))
      by (simpl; by rewrite lookup_insert_ne).
    destruct (decide (y ∈ cg)) as [Hin|Hnotin].
    + destruct (indexOf_present cg y Hin) as (b & a & -> & Hb & _).
      rewrite (remove_present s1 g y ng b a Hg1 Hb).
      rewrite (remove_present s g y ng b a Hg Hb).
      erewrite add_folder by (simpl; rewrite lookup_insert_ne; done).
      simpl. by rewrite insert_insert_ne.
    + rewrite (remove_absent s1 g y ng cg Hg1 Hnotin).
      rewrite (remove_absent s g y ng cg Hg Hnotin).
      by rewrite (add_folder s f x nf cf Hf).
Qed.

(** X10.  On a folder whose children are pairwise distinct, a second
    [remove] of the same component does nothing. *)
Theorem remove_idempotent (s : state) (f x : ref) (name : string)
    (children : list ref) :
  heap s !! f = Some (FolderObj name children) →
  NoDup children →
  (remove f x;; remove f x) s = remove f x s.
Proof.
  intros Hf Hnodup. unfold mbind, M_bind, bind.
  destruct (decide (x ∈ children)) as [Hin|Hnotin].
  - destruct (indexOf_present children x Hin) as (b & a & -> & Hb & _).
    rewrite (remove_present s f x name b a Hf Hb).
    apply NoDup_app in Hnodup as (_ & _ & [Ha _]%NoDup_cons).
    apply (remove_absent _ f x name (b ++ a)); [apply lookup_insert_eq|].
    rewrite elem_of_app. naive_solver.
  - rewrite (remove_absent s f x name children Hf Hnotin).
    by apply (remove_absent s f x name children).
Qed.

(** *** Names *)

Lemma getName_lookup r s n s0 :
  getName r s = Ok n s0 ↔ s0 = s ∧ name_of <$> heap s !! r = Some n.
Proof.
  unfold getName. munfold.
  destruct (heap s !! r) as [[name|name children]|]; simpl; naive_solver.
Qed.

(** X11.  [getName] reads the name without changing the state, and no
    method or constructor of the two classes renames an object: after
    [add], [remove], [display], [new File] or [new Folder], [getName] on
    an object that was there returns what it returned before. *)
Theorem getName_stable (s s0 : state) (r : ref) (n : string) :
  getName r s = Ok n s0 →
  s0 = s
  ∧ ∀ s',
      (∃ f x, add f x s = Ok tt s')
      ∨ (∃ f x, remove f x s = Ok tt s')
      ∨ (∃ fuel r' ind, display fuel r' ind s = Ok tt s')
      ∨ (∃ name r', new_File name s = Ok r' s')
      ∨ (∃ name r', new_Folder name s = Ok r' s') →
      getName r s' = Ok n s'.
Proof.
  intros [-> Hn]%getName_lookup. split; [done|].
  assert (Hr : is_Some (heap s !! r))
    by (destruct (heap s !! r); [by eexists|done]).
  assert (Hmut : ∀ s' f x,
    add f x s = Ok tt s' ∨ remove f x s = Ok tt s' →
    getName r s' = Ok n s').
  { intros s' f x (name & cs & cs' & Hf & Hh & _)%mutator_shape.
    apply getName_lookup. split; [done|]. rewrite Hh.
    destruct (decide (r = f)) as [->|Hne].
    - rewrite lookup_insert_eq. by rewrite Hf in Hn.
    - by rewrite lookup_insert_ne. }
  assert (Halloc : ∀ o r' s', alloc o s = Ok r' s' → getName r s' = Ok n s').
  { intros o r' s' Ha. unfold alloc in Ha. simplify_eq.
    apply getName_lookup. split; [done|]. simpl.
    rewrite lookup_insert_ne; [done|].
    intros <-. apply elem_of_dom in Hr. by apply is_fresh in Hr. }
  intros s' [(f & x & Hop)|[(f & x & Hop)|[(fuel & r' & ind & Hop)
            |[(name & r' & Hop)|(name & r' & Hop)]]]].
  - eapply Hmut; eauto.
  - eapply Hmut; eauto.
  - apply display_frame in Hop as [Hh _].
    apply getName_lookup. split; [done|]. by rewrite Hh.
  - by eapply Halloc.
  - by eapply Halloc.
Qed.

(** *** The further properties at concrete stores *)

Lemma display_returns_iff_tree_witness :
  display 3 (rootFolder demo_handles) None demo_state
  = Ok tt (logged expected_before demo_state)
  ∧ ∃ t, models (heap demo_state) (rootFolder demo_handles) t
         ∧ height t ≤ 3
         ∧ logged expected_before demo_state = logged (lines "" t) demo_state.
Proof.
  assert (Hrun : display 3 (rootFolder demo_handles) None demo_state
                 = Ok tt (logged expected_before demo_state)) by reflexivity.
  split; [exact Hrun|].
  exact (proj1 (display_returns_iff_tree 3 (rootFolder demo_handles) None
                  demo_state (logged expected_before demo_state)) Hrun).
Defined.

Lemma display_cycle_never_returns_witness :
  rtc (child (heap loop_state)) 0 1
  ∧ tc (child (heap loop_state)) 1 1
  ∧ display 7 0 None loop_state ≠ Ok tt loop_state.
Proof.
  set (s := loop_state).
  assert (H01 : rtc (child (heap s)) 0 1).
  { apply rtc_once. exists "Root", [1]. split; [reflexivity|apply list_elem_of_here]. }
  assert (H11 : tc (child (heap s)) 1 1).
  { apply tc_once. exists "Loop", [1]. split; [reflexivity|apply list_elem_of_here]. }
  split_and!; [exact H01|exact H11|].
  exact (display_cycle_never_returns s 0 1 H01 H11 7 None s).
Defined.

Lemma add_ancestor_never_displays_witness :
  heap demo_state !! folder1 demo_handles = Some (FolderObj "Documents" [0; 1; 3])
  ∧ rtc (child (heap demo_state)) (rootFolder demo_handles) (folder1 demo_handles)
  ∧ ∃ s1, add (folder1 demo_handles) (rootFolder demo_handles) demo_state = Ok tt s1
          ∧ heap s1 !! folder1 demo_handles
            = Some (FolderObj "Documents" ([0; 1; 3] ++ [rootFolder demo_handles]))
          ∧ ∀ fuel ind s', display fuel (folder1 demo_handles) ind s1 ≠ Ok tt s'.
Proof.
  assert (Hf : heap demo_state !! folder1 demo_handles
               = Some (FolderObj "Documents" [0; 1; 3])) by reflexivity.
  assert (Hreach : rtc (child (heap demo_state)) (rootFolder demo_handles)
                     (folder1 demo_handles)).
  { apply rtc_once. exists "Root", [4; 5].
    split; [reflexivity|apply list_elem_of_here]. }
  split_and!; [exact Hf|exact Hreach|].
  exact (add_ancestor_never_displays demo_state (folder1 demo_handles)
           (rootFolder demo_handles) "Documents" [0; 1; 3] Hf Hreach).
Defined.



Lemma remove_display_cuts_block_witness :
  heap demo_state !! folder1 demo_handles
  = Some (FolderObj "Documents" ([0; 1] ++ file4 demo_handles :: []))
  ∧ (file4 demo_handles ∉ [0; 1])
  ∧ ∃ s1, remove (folder1 demo_handles) (file4 demo_handles) demo_state = Ok tt s1
          ∧ display 2 (folder1 demo_handles) (Some "") s1
            = Ok tt (logged [ "+ Folder: Documents";
                              "  - File: file1.txt";
                              "  - File: file2.txt" ] s1).
Proof.
  assert (Hf : heap demo_state !! folder1 demo_handles
               = Some (FolderObj "Documents" ([0; 1] ++ file4 demo_handles :: [])))
    by reflexivity.
  assert (Hnotin : file4 demo_handles ∉ [0; 1]) by compute_done.
  assert (Hb : Forall2 (models (heap demo_state)) [0; 1]
                 [TFile "file1.txt"; TFile "file2.txt"]) by solve_models.
  assert (Hx : models (heap demo_state) (file4 demo_handles) (TFile "file4.txt"))
    by solve_models.
  assert (Ha : Forall2 (models (heap demo_state)) [] []) by constructor.
  split_and!; [exact Hf|exact Hnotin|].
  destruct (remove_display_cuts_block demo_state (folder1 demo_handles)
              (file4 demo_handles) "Documents" [0; 1] []
              [TFile "file1.txt"; TFile "file2.txt"] [] (TFile "file4.txt")
              Hf Hnotin Hb Hx Ha) as (s1 & Hrm & _ & Hrun).
  exists s1. split; [exact Hrm|].
  apply (Hrun "" 2). simpl. lia.
Defined.

Lemma display_indentation_prefix_witness :
  models (heap demo_state) (rootFolder demo_handles) demo_tree
  ∧ height demo_tree ≤ 3
  ∧ ∃ out,
      display 3 (rootFolder demo_handles) None demo_state
      = Ok tt (logged out demo_state)
      ∧ display 3 (rootFolder demo_handles) (Some "> ") demo_state
        = Ok tt (logged (map (String.append "> ") out) demo_state).
Proof.
  assert (Hm : models (heap demo_state) (rootFolder demo_handles) demo_tree)
    by (unfold demo_tree; solve_models).
  assert (Hh : height demo_tree ≤ 3) by (simpl; lia).
  split_and!; [exact Hm|exact Hh|].
  exact (display_indentation_prefix demo_state (rootFolder demo_handles)
           demo_tree "> " 3 Hm Hh).
Defined.

Lemma remove_deletes_one_witness :
  heap twice_state !! 0 = Some (FolderObj "F" [1; 2; 1])
  ∧ 1 ∈ [1; 2; 1]
  ∧ ∃ children',
      remove 0 1 twice_state
      = Ok tt (State (<[0 := FolderObj "F" children']> (heap twice_state))
                     (console twice_state))
      ∧ [1; 2; 1] ≡ₚ 1 :: children'
      ∧ children' `sublist_of` [1; 2; 1]
      ∧ length [1; 2; 1] = S (length children').
Proof.
  set (s := twice_state).
  assert (Hf : heap s !! 0 = Some (FolderObj "F" [1; 2; 1])) by reflexivity.
  assert (Hin : 1 ∈ [1; 2; 1]) by apply list_elem_of_here.
  split_and!; [exact Hf|exact Hin|].
  exact (remove_deletes_one s 0 1 "F" [1; 2; 1] Hf Hin).
Defined.

Lemma add_remove_frame_witness :
  (add (folder2 demo_handles) (file4 demo_handles) demo_state = Ok tt demo_state_add
   ∨ remove (folder2 demo_handles) (file4 demo_handles) demo_state = Ok tt demo_state_add)
  ∧ console demo_state_add = console demo_state
  ∧ dom (heap demo_state_add) = dom (heap demo_state)
  ∧ (∀ r, r ≠ folder2 demo_handles → heap demo_state_add !! r = heap demo_state !! r)
  ∧ name_of <$> heap demo_state_add !! folder2 demo_handles
    = name_of <$> heap demo_state !! folder2 demo_handles.
Proof.
  set (s' := demo_state_add).
  assert (Hop : add (folder2 demo_handles) (file4 demo_handles) demo_state = Ok tt s'
                ∨ remove (folder2 demo_handles) (file4 demo_handles) demo_state
                  = Ok tt s') by (left; reflexivity).
  split; [exact Hop|].
  exact (add_remove_frame demo_state s' (folder2 demo_handles)
           (file4 demo_handles) Hop).
Defined.

Lemma add_remove_commute_witness :
  heap demo_state !! folder1 demo_handles = Some (FolderObj "Documents" [0; 1; 3])
  ∧ (folder1 demo_handles ≠ folder1 demo_handles
     ∨ file3 demo_handles ≠ file4 demo_handles)
  ∧ (add (folder1 demo_handles) (file3 demo_handles);;
     remove (folder1 demo_handles) (file4 demo_handles)) demo_state
    = (remove (folder1 demo_handles) (file4 demo_handles);;
       add (folder1 demo_handles) (file3 demo_handles)) demo_state.
Proof.
  assert (Hf : heap demo_state !! folder1 demo_handles
               = Some (FolderObj "Documents" [0; 1; 3])) by reflexivity.
  assert (Hne : folder1 demo_handles ≠ folder1 demo_handles
                ∨ file3 demo_handles ≠ file4 demo_handles).
  { right. intros Heq. vm_compute in Heq. discriminate Heq. }
  split_and!; [exact Hf|exact Hne|].
  exact (add_remove_commute demo_state (folder1 demo_handles)
           (folder1 demo_handles) (file3 demo_handles) (file4 demo_handles)
           "Documents" "Documents" [0; 1; 3] [0; 1; 3] Hf Hf Hne).
Defined.

Lemma remove_idempotent_witness :
  heap demo_state !! folder1 demo_handles = Some (FolderObj "Documents" [0; 1; 3])
  ∧ NoDup [0; 1; 3]
  ∧ (remove (folder1 demo_handles) (file2 demo_handles);;
     remove (folder1 demo_handles) (file2 demo_handles)) demo_state
    = remove (folder1 demo_handles) (file2 demo_handles) demo_state.
Proof.
  assert (Hf : heap demo_state !! folder1 demo_handles
               = Some (FolderObj "Documents" [0; 1; 3])) by reflexivity.
  assert (Hnodup : NoDup [0; 1; 3]) by compute_done.
  split_and!; [exact Hf|exact Hnodup|].
  exact (remove_idempotent demo_state (folder1 demo_handles)
           (file2 demo_handles) "Documents" [0; 1; 3] Hf Hnodup).
Defined.

Lemma getName_stable_witness :
  getName (folder1 demo_handles) demo_state = Ok "Documents" demo_state
  ∧ ∀ s',
      remove (folder1 demo_handles) (file4 demo_handles) demo_state = Ok tt s' →
      getName (folder1 demo_handles) s' = Ok "Documents" s'.
Proof.
  assert (Hn : getName (folder1 demo_handles) demo_state
               = Ok "Documents" demo_state) by reflexivity.
  split; [exact Hn|]. intros s' Hrm.
  apply (proj2 (getName_stable demo_state demo_state (folder1 demo_handles)
                  "Documents" Hn) s').
  right. left. exists (folder1 demo_handles), (file4 demo_handles). exact Hrm.
Defined.
